(** * scripts/download-models.py: a shallow embedding and its properties

    The script parses [--model] and [--output], joins the output name onto
    the base directory taken from [MODELS_DIR], creates that directory and
    hands the download to [huggingface_hub.snapshot_download].

    The script itself is forty lines; what it does is decided by the
    library calls it makes.  Each of them is modelled here from the CPython
    3.11 standard library on a POSIX system: [argparse] (the parser that
    [main] builds), [os.environ.get], [posixpath.join], [pathlib.Path.mkdir]
    over a small file system of directories and regular files, [print] and
    [sys.exit].  The hub client is an opaque collaborator: a parameter of
    the development.

    Strings are sequences of code points below 256. *)

From Stdlib Require Import ZArith Ascii.
From stdpp Require Import base strings list gmap.

Local Open Scope Z_scope.

(** ** Python [str] methods used by the script and by the libraries *)
Module PyStr.

(** [s.startswith(pre)] *)
Fixpoint startswith (pre s : string) : bool :=
  match pre, s with
  | EmptyString, _ => true
  | String a pre', String b s' => if decide (a = b) then startswith pre' s' else false
  | String _ _, EmptyString => false
  end.

(** [s.endswith(c)] for a one-character [c] *)
Fixpoint endswith (c : ascii) (s : string) : bool :=
  match s with
  | EmptyString => false
  | String a EmptyString => bool_decide (a = c)
  | String _ s' => endswith c s'
  end.

(** [c in s] *)
Fixpoint contains (c : ascii) (s : string) : bool :=
  match s with
  | EmptyString => false
  | String a s' => if decide (a = c) then true else contains c s'
  end.

(** [s.split(c, 1)] when [c in s]: the text before and after the first [c] *)
Fixpoint split1 (c : ascii) (s : string) : option (string * string) :=
  match s with
  | EmptyString => None
  | String a s' =>
      if decide (a = c) then Some (EmptyString, s')
      else match split1 c s' with
           | Some (l, r) => Some (String a l, r)
           | None => None
           end
  end.

(** [s.split(c)] *)
Fixpoint split (c : ascii) (s : string) : list string :=
  match s with
  | EmptyString => [EmptyString]
  | String a s' =>
      if decide (a = c) then EmptyString :: split c s'
      else match split c s' with
           | w :: ws => String a w :: ws
           | [] => [String a EmptyString]
           end
  end.

(** [s.lstrip(c)] *)
Fixpoint lstrip (c : ascii) (s : string) : string :=
  match s with
  | String a s' => if decide (a = c) then lstrip c s' else s
  | EmptyString => EmptyString
  end.

(** [sep.join(l)] *)
Fixpoint join (sep : string) (l : list string) : string :=
  match l with
  | [] => EmptyString
  | [w] => w
  | w :: ws => w +:+ sep +:+ join sep ws
  end.

Definition is_digit (c : ascii) : bool :=
  bool_decide (48 ≤ Z.of_N (N_of_ascii c) ≤ 57).

Definition hex_digit (n : N) : ascii :=
  ascii_of_N (if (n <? 10)%N then 48 + n else 87 + n)%N.

(** [str.isprintable] on one code point below 256: everything but the
    control characters, the no-break space and the soft hyphen *)
Definition isprintable (c : ascii) : bool :=
  let n := Z.of_N (N_of_ascii c) in
  bool_decide (32 ≤ n < 127 ∨ (161 ≤ n ∧ n ≠ 173)).

Definition backslash : ascii := "092"%char.
Definition dquote : ascii := "034"%char.
Definition squote : ascii := "039"%char.

Definition escaped (c : ascii) : string := String backslash (String c EmptyString).

Definition repr_char (quote c : ascii) : string :=
  if decide (c = quote) then escaped c
  else if decide (c = backslash) then escaped backslash
  else if decide (c = "009"%char) then escaped "t"
  else if decide (c = "010"%char) then escaped "n"
  else if decide (c = "013"%char) then escaped "r"
  else if isprintable c then String c EmptyString
  else String backslash (String "x" (String (hex_digit (N_of_ascii c / 16))
         (String (hex_digit (N_of_ascii c mod 16)) EmptyString))).

Fixpoint repr_body (quote : ascii) (s : string) : string :=
  match s with
  | EmptyString => EmptyString
  | String a s' => repr_char quote a +:+ repr_body quote s'
  end.

(** [repr(s)]: single quotes, unless [s] has a single quote and no
    double quote *)
Definition repr (s : string) : string :=
  let quote : ascii :=
    if contains squote s && negb (contains dquote s) then dquote else squote in
  String quote (repr_body quote s +:+ String quote EmptyString).

End PyStr.

(** ** Values and exceptions *)

(** What [argparse] stores under [args.model] and [args.output]: the
    argument string or, for the explicit argument [--] (as in
    [--model=--]), the list that is left once [_get_values] has removed
    that [--]. *)
Inductive ArgValue :=
| Str (s : string)
| StrList (l : list string).

(** How an f-string renders the value: [str(v)] *)
Definition format (v : ArgValue) : string :=
  match v with
  | Str s => s
  | StrList l => "[" +:+ PyStr.join ", " (PyStr.repr <$> l) +:+ "]"
  end.

Inductive Errno := ENOENT | EACCES | EEXIST | ENOTDIR.

Definition errno_number (e : Errno) : string :=
  match e with ENOENT => "2" | EACCES => "13" | EEXIST => "17" | ENOTDIR => "20" end.

Definition strerror (e : Errno) : string :=
  match e with
  | ENOENT => "No such file or directory"
  | EACCES => "Permission denied"
  | EEXIST => "File exists"
  | ENOTDIR => "Not a directory"
  end.

(** Instances of [Exception]: [OSError] (with its subclasses
    [FileNotFoundError], [FileExistsError], [NotADirectoryError],
    [PermissionError], chosen by the errno) and everything else, given by
    its class name and its [str]. *)
Inductive Exception :=
| OSError (errno : Errno) (filename : string)
| OtherException (cls msg : string).

(** [str(e)] *)
Definition exc_str (e : Exception) : string :=
  match e with
  | OSError n f => "[Errno " +:+ errno_number n +:+ "] " +:+ strerror n +:+ ": " +:+ PyStr.repr f
  | OtherException _ msg => msg
  end.

(** What a call can raise.  [SystemExit] and [KeyboardInterrupt] derive
    from [BaseException] only, so [except Exception] lets them through. *)
Inductive PyExc :=
| SystemExit (code : Z)
| KeyboardInterrupt
| Exc (e : Exception).

Inductive Result (A : Type) :=
| Ret (a : A)
| Raise (e : PyExc).
Arguments Ret {A} a.
Arguments Raise {A} e.

(** ** argparse: the parser built in [main]

    [ArgumentParser(description=...)] with [add_argument("--model",
    required=True)] and [add_argument("--output", required=True)]; the
    parser adds [-h/--help] itself.  Defaults everywhere else:
    [prefix_chars='-'], [allow_abbrev=True], [exit_on_error=True], no
    positionals, no mutually exclusive groups. *)
Module Argparse.

Inductive Action := Help | Model | Output.

#[global] Instance Action_eq_dec : EqDecision Action.
Proof. solve_decision. Defined.

(** [parser._option_string_actions], in insertion order *)
Definition option_string_actions : list (string * Action) :=
  [("-h", Help); ("--help", Help); ("--model", Model); ("--output", Output)].

Fixpoint assoc (k : string) (l : list (string * Action)) : option Action :=
  match l with
  | [] => None
  | (k', a) :: l' => if decide (k = k') then Some a else assoc k l'
  end.

(** [action.nargs]: 0 for the help action, [None] (one argument) for the
    two store actions *)
Definition nargs (a : Action) : nat :=
  match a with Help => 0%nat | Model | Output => 1%nat end.

(** [_get_action_name] *)
Definition action_name (a : Action) : string :=
  match a with
  | Help => "-h/--help"
  | Model => "--model"
  | Output => "--output"
  end.

(** The messages handed to [parser.error] *)
Inductive ArgumentError :=
| AmbiguousOption (option : string) (matches : list string)
| UnexpectedOptionString (option : string)
| ExpectedOneArgument (a : Action)
| IgnoredExplicitArgument (a : Action) (explicit_arg : string)
| RequiredArguments (names : list string)
| UnrecognizedArguments (extras : list string).

(** [(action, option_string, explicit_arg)] *)
Definition OptionTuple : Type := option Action * string * option string.

Definition in_prefix_chars (c : ascii) : bool := bool_decide (c = "-"%char).

(** [_get_option_tuples] *)
Definition get_option_tuples (option_string : string)
  : ArgumentError + list OptionTuple :=
  match option_string with
  | String c0 (String c1 rest) =>
      if in_prefix_chars c0 && in_prefix_chars c1 then
        let '(option_prefix, explicit_arg) :=
          match PyStr.split1 "=" option_string with
          | Some (p, e) => (p, Some e)
          | None => (option_string, None)
          end in
        inr (omap (λ '(os, a),
                if PyStr.startswith option_prefix os
                then Some (Some a, os, explicit_arg) else None)
             option_string_actions)
      else if in_prefix_chars c0 && negb (in_prefix_chars c1) then
        let short_option_prefix := String c0 (String c1 EmptyString) in
        let short_explicit_arg := rest in
        inr (omap (λ '(os, a),
                if decide (os = short_option_prefix)
                then Some (Some a, os, Some short_explicit_arg)
                else if PyStr.startswith option_string os
                then Some (Some a, os, None) else None)
             option_string_actions)
      else inl (UnexpectedOptionString option_string)
  | _ => inl (UnexpectedOptionString option_string)
  end.

Fixpoint skip_digits (s : string) : string :=
  match s with
  | String c s' => if PyStr.is_digit c then skip_digits s' else s
  | EmptyString => EmptyString
  end.

(** [$]: the end of the string, or just before a final newline *)
Definition at_dollar (s : string) : bool :=
  bool_decide (s = EmptyString) || bool_decide (s = String "010" EmptyString).

Definition one_or_more_digits_then_end (s : string) : bool :=
  match s with
  | String c s' => PyStr.is_digit c && at_dollar (skip_digits s')
  | EmptyString => false
  end.

(** [_negative_number_matcher.match]: the pattern [^-\d+$|^-\d*\.\d+$] *)
Definition negative_number_matcher (s : string) : bool :=
  match s with
  | String "-" r =>
      one_or_more_digits_then_end r
      || match skip_digits r with
         | String "." r' => one_or_more_digits_then_end r'
         | _ => false
         end
  | _ => false
  end.

(** [_parse_optional]: [inr None] for a positional, [inr (Some t)] for an
    option, [inl] where the source calls [self.error] *)
Definition parse_optional (arg_string : string)
  : ArgumentError + option OptionTuple :=
  match arg_string with
  | EmptyString => inr None
  | String c0 tail =>
      if negb (in_prefix_chars c0) then inr None
      else match assoc arg_string option_string_actions with
      | Some action => inr (Some (Some action, arg_string, None))
      | None =>
      if decide (tail = EmptyString) then inr None
      else
        let explicit :=
          match PyStr.split1 "=" arg_string with
          | Some (option_string, explicit_arg) =>
              match assoc option_string option_string_actions with
              | Some action => Some (Some action, option_string, Some explicit_arg)
              | None => None
              end
          | None => None
          end in
        match explicit with
        | Some t => inr (Some t)
        | None =>
            match get_option_tuples arg_string with
            | inl e => inl e
            | inr (t1 :: t2 :: ts) =>
                inl (AmbiguousOption arg_string ((λ t, t.1.2) <$> (t1 :: t2 :: ts)))
            | inr [t] => inr (Some t)
            | inr [] =>
                if negative_number_matcher arg_string then inr None
                else if PyStr.contains " " arg_string then inr None
                else inr (Some (None, arg_string, None))
            end
        end
      end
  end.

(** One letter of [arg_strings_pattern], with the option tuple kept where
    the source keeps it in [option_string_indices] *)
Inductive Pattern :=
| A
| O (t : OptionTuple)
| Dash.

(** The first loop of [_parse_known_args] *)
Fixpoint classify (arg_strings : list string)
  : ArgumentError + list (string * Pattern) :=
  match arg_strings with
  | [] => inr []
  | arg_string :: rest =>
      if decide (arg_string = "--") then
        inr ((arg_string, Dash) :: ((λ a, (a, A)) <$> rest))
      else match parse_optional arg_string with
           | inl e => inl e
           | inr p =>
               match classify rest with
               | inl e => inl e
               | inr items =>
                   inr ((arg_string, match p with None => A | Some t => O t end) :: items)
               end
           end
  end.

(** [args]: the namespace that [parse_args] returns *)
Record Namespace := { model : ArgValue; output : ArgValue }.

(** The namespace while it is filled ([None] is the default of an action
    not yet in [seen_actions]) and the [extras] list *)
Record ParseState := {
  ns_model : option ArgValue;
  ns_output : option ArgValue;
  extras : list string
}.

(** How a step of the parser ends: it goes on, the help action prints the
    help and calls [parser.exit()], or [parser.error] is called *)
Inductive Parsing (T : Type) :=
| Continue (x : T)
| PrintHelpAndExit
| Error (e : ArgumentError).
Arguments Continue {T} x.
Arguments PrintHelpAndExit {T}.
Arguments Error {T} e.

Definition and_then {T U} (p : Parsing T) (k : T → Parsing U) : Parsing U :=
  match p with
  | Continue x => k x
  | PrintHelpAndExit => PrintHelpAndExit
  | Error e => Error e
  end.

Fixpoint remove_first (x : string) (l : list string) : list string :=
  match l with
  | [] => []
  | y :: l' => if decide (y = x) then l' else y :: remove_first x l'
  end.

(** [_get_values]: the first [--] is dropped; one string left for a
    one-argument action is the value, anything else is stored as a list *)
Definition get_values (action : Action) (arg_strings : list string) : ArgValue :=
  match nargs action, remove_first "--" arg_strings with
  | 1%nat, [arg_string] => Str arg_string
  | _, l => StrList l
  end.

(** [take_action]: the store actions set their attribute, the help action
    prints and exits *)
Definition take_action (st : ParseState) (t : Action * list string)
  : Parsing ParseState :=
  match t.1 with
  | Help => PrintHelpAndExit
  | Model =>
      Continue {| ns_model := Some (get_values Model t.2);
                  ns_output := ns_output st; extras := extras st |}
  | Output =>
      Continue {| ns_model := ns_model st;
                  ns_output := Some (get_values Output t.2); extras := extras st |}
  end.

Fixpoint take_actions (action_tuples : list (Action * list string)) (st : ParseState)
  : Parsing ParseState :=
  match action_tuples with
  | [] => Continue st
  | t :: ts => and_then (take_action st t) (take_actions ts)
  end.

Definition add_extra (arg_string : string) (st : ParseState) : ParseState :=
  {| ns_model := ns_model st; ns_output := ns_output st;
     extras := extras st ++ [arg_string] |}.

(** The [while True] loop of [consume_optional] while there is an explicit
    argument [e].  An action without arguments whose option string has a
    single dash lets the next character of [e] be read as one more
    single-dash flag.  The loop ends with the action tuples collected so
    far and, when flags were peeled off until nothing was left, with the
    action that still has to match the strings that follow. *)
Fixpoint explicit_argument (action : Action) (option_string e : string)
    (action_tuples : list (Action * list string))
  : ArgumentError + (list (Action * list string) * option Action) :=
  match nargs action, e, option_string with
  | 0%nat, String c e', String char (String c1 _) =>
      if in_prefix_chars c1 then inl (IgnoredExplicitArgument action e)
      else
        let option_string' := String char (String c EmptyString) in
        match assoc option_string' option_string_actions with
        | Some action' =>
            match e' with
            | EmptyString => inr (action_tuples ++ [(action, [])], Some action')
            | _ => explicit_argument action' option_string' e'
                     (action_tuples ++ [(action, [])])
            end
        | None => inl (IgnoredExplicitArgument action e)
        end
  | 1%nat, _, _ => inr (action_tuples ++ [(action, [e])], None)
  | _, _, _ => inl (IgnoredExplicitArgument action e)
  end.

(** The main loop of [_parse_known_args].  The parser has no positional,
    so [consume_positionals] takes nothing and every string that is not
    taken by an option goes to [extras]. *)
Fixpoint consume (items : list (string * Pattern)) (st : ParseState)
  : Parsing ParseState :=
  match items with
  | [] => Continue st
  | (arg_string, A) :: rest | (arg_string, Dash) :: rest
  | (arg_string, O (None, _, _)) :: rest =>
      consume rest (add_extra arg_string st)
  | (arg_string, O (Some action, option_string, explicit_arg)) :: rest =>
      let pending :=
        match explicit_arg with
        | Some e => explicit_argument action option_string e []
        | None => inr ([], Some action)
        end in
      match pending with
      | inl e => Error e
      | inr (action_tuples, None) =>
          and_then (take_actions action_tuples st) (consume rest)
      | inr (action_tuples, Some action') =>
          match nargs action', rest with
          | 0%nat, _ =>
              and_then (take_actions (action_tuples ++ [(action', [])]) st)
                       (consume rest)
          | _, (value, A) :: rest' =>
              and_then (take_actions (action_tuples ++ [(action', [value])]) st)
                       (consume rest')
          | _, _ => Error (ExpectedOneArgument action')
          end
      end
  end.

Definition initial : ParseState :=
  {| ns_model := None; ns_output := None; extras := [] |}.

(** The end of [_parse_known_args]: the required actions not seen *)
Definition required_actions (st : ParseState) : list string :=
  match ns_model st with Some _ => [] | None => [action_name Model] end
  ++ match ns_output st with Some _ => [] | None => [action_name Output] end.

(** [parser.parse_args(sys.argv[1:])] *)
Definition parse_args (args : list string) : Parsing Namespace :=
  match classify args with
  | inl e => Error e
  | inr items =>
      and_then (consume items initial) (λ st,
        match ns_model st, ns_output st with
        | Some m, Some o =>
            match extras st with
            | [] => Continue {| model := m; output := o |}
            | argv => Error (UnrecognizedArguments argv)
            end
        | _, _ => Error (RequiredArguments (required_actions st))
        end)
  end.

(** *** Which flags an invocation gives

    A command-line string gives the flag of an action when
    [_parse_optional] reads it as an option string of that action: the
    option string itself, an abbreviation of it, or either of them followed
    by [=value].  Only the strings before the first [--] count. *)
Definition selects (a : Action) (arg_string : string) : bool :=
  match parse_optional arg_string with
  | inr (Some (Some a', _, _)) => bool_decide (a' = a)
  | _ => false
  end.

Fixpoint before_dashdash (args : list string) : list string :=
  match args with
  | [] => []
  | arg_string :: rest =>
      if decide (arg_string = "--") then [] else arg_string :: before_dashdash rest
  end.

Definition gives (a : Action) (argv : list string) : bool :=
  existsb (selects a) (before_dashdash argv).

(** The option of action [a] occurs in the classified command line. *)
Definition option_of (a : Action) (items : list (string * Pattern)) : Prop :=
  ∃ arg os ex, (arg, O (Some a, os, ex)) ∈ items.

End Argparse.

(** ** The file system

    Directories and regular files, named by the list of their components
    from the root; a directory is writable by the process or not.  There
    are no symbolic links.  Names are resolved the way the kernel does it:
    component by component, [..] stepping to the parent ([/..] is [/]), and
    every component but the last has to be a directory.  The strings of
    [sys.argv] and of the environment hold no NUL, so the [ValueError] of
    an embedded null byte does not arise. *)
Module Fs.

Inductive Node := Dir (writable : bool) | File.

Record FileSystem := {
  nodes : gmap (list string) Node;
  cwd : list string
}.

(** The anchor of a [PurePosixPath]: none, [/], or the [//] that POSIX
    sets apart *)
Inductive Root := Relative | Slash | DoubleSlash.

(** [PurePosixPath]: [_root] and the components that follow it *)
Record PurePath := { root : Root; parts : list string }.

Definition root_str (r : Root) : string :=
  match r with
  | Relative => EmptyString
  | Slash => "/"
  | DoubleSlash => "//"
  end.

(** [_PosixFlavour.splitroot] and [parse_parts] on one string *)
Definition parse_path (s : string) : PurePath :=
  let stripped := PyStr.lstrip "/" s in
  {| root :=
       if PyStr.startswith "/" s then
         if decide (String.length s - String.length stripped = 2)%nat
         then DoubleSlash else Slash
       else Relative;
     parts :=
       filter (λ x, x ≠ EmptyString ∧ x ≠ ".") (PyStr.split "/" stripped) |}.

(** [str(path)] *)
Definition str_path (p : PurePath) : string :=
  match root p, parts p with
  | Relative, [] => "."
  | r, l => root_str r +:+ PyStr.join "/" l
  end.


(** Where resolution starts *)
Definition origin (fs : FileSystem) (r : Root) : list string :=
  match r with
  | Relative => cwd fs
  | Slash | DoubleSlash => []
  end.

(** Walk down [names] from the directory [cur]; the result is the place
    reached, which is not looked at *)
Fixpoint walk (m : gmap (list string) Node) (cur names : list string)
  : Errno + list string :=
  match names with
  | [] => inr cur
  | name :: names' =>
      match m !! cur with
      | None => inl ENOENT
      | Some File => inl ENOTDIR
      | Some (Dir _) =>
          walk m (if decide (name = "..") then removelast cur else cur ++ [name]) names'
      end
  end.

(** [os.stat] *)
Definition stat (fs : FileSystem) (p : PurePath) : Errno + Node :=
  match walk (nodes fs) (origin fs (root p)) (parts p) with
  | inl e => inl e
  | inr place =>
      match nodes fs !! place with
      | Some n => inr n
      | None => inl ENOENT
      end
  end.

(** [Path.is_dir]: [ENOENT] and [ENOTDIR] from [stat] mean [False] *)
Definition is_dir (fs : FileSystem) (p : PurePath) : bool :=
  match stat fs p with
  | inr (Dir _) => true
  | _ => false
  end.

(** [os.mkdir]: the new directory belongs to the process *)
Definition os_mkdir (fs : FileSystem) (p : PurePath) : Errno + FileSystem :=
  match reverse (parts p) with
  | [] =>
      match nodes fs !! origin fs (root p) with
      | Some _ => inl EEXIST
      | None => inl ENOENT
      end
  | name :: rev_prefix =>
      match walk (nodes fs) (origin fs (root p)) (reverse rev_prefix) with
      | inl e => inl e
      | inr place =>
          match nodes fs !! place with
          | None => inl ENOENT
          | Some File => inl ENOTDIR
          | Some (Dir writable) =>
              if decide (name = "..") then inl EEXIST
              else match nodes fs !! (place ++ [name]) with
                   | Some _ => inl EEXIST
                   | None =>
                       if writable
                       then inr {| nodes := <[place ++ [name] := Dir true]> (nodes fs);
                                   cwd := cwd fs |}
                       else inl EACCES
                   end
          end
      end
  end.

(** [Path.mkdir(parents=False, exist_ok)]: what is raised, if anything,
    and the file system afterwards *)
Definition mkdir_single (exist_ok : bool) (fs : FileSystem) (self : PurePath)
  : option Exception * FileSystem :=
  match os_mkdir fs self with
  | inr fs' => (None, fs')
  | inl ENOENT => (Some (OSError ENOENT (str_path self)), fs)
  | inl e =>
      if negb exist_ok || negb (is_dir fs self)
      then (Some (OSError e (str_path self)), fs)
      else (None, fs)
  end.

(** [Path.mkdir(parents=True, exist_ok)] on the path with root [r] and
    components [reverse rev_parts]: its parent has the components
    [reverse (tail rev_parts)], and it is its own parent when there are
    none *)
Fixpoint mkdir_parents (exist_ok : bool) (fs : FileSystem) (r : Root)
    (rev_parts : list string) : option Exception * FileSystem :=
  let self := {| root := r; parts := reverse rev_parts |} in
  match os_mkdir fs self with
  | inr fs' => (None, fs')
  | inl ENOENT =>
      match rev_parts with
      | [] => (Some (OSError ENOENT (str_path self)), fs)
      | _ :: rev_parent =>
          match mkdir_parents true fs r rev_parent with
          | (Some e, fs1) => (Some e, fs1)
          | (None, fs1) => mkdir_single exist_ok fs1 self
          end
      end
  | inl e =>
      if negb exist_ok || negb (is_dir fs self)
      then (Some (OSError e (str_path self)), fs)
      else (None, fs)
  end.

(** [Path.mkdir(mode, parents, exist_ok)] *)
Definition mkdir (parents exist_ok : bool) (fs : FileSystem) (self : PurePath)
  : option Exception * FileSystem :=
  if parents then mkdir_parents exist_ok fs (root self) (reverse (parts self))
  else mkdir_single exist_ok fs self.

End Fs.

(** ** The process: what it can observe and what it leaves behind *)

Export Fs (FileSystem).

(** One entry per effect of the run, in the order of the run.  A download
    call is logged with the file system it found and with how it ended. *)
Inductive Event :=
| Stdout (line : string)
| PrintHelp
| UsageError (e : Argparse.ArgumentError)
| Mkdir (path : string) (raised : option Exception)
| SnapshotDownload (repo_id : ArgValue) (local_dir : string)
    (local_dir_use_symlinks resume_download : bool)
    (found : FileSystem) (outcome : Result unit)
| Traceback (e : PyExc).

Record World := { files : FileSystem; trace : list Event }.

Definition log (ev : Event) (w : World) : World :=
  {| files := files w; trace := trace w ++ [ev] |}.

(** A computation of the script: it returns or raises, and changes the
    world on the way *)
Definition M (T : Type) : Type := World → Result T * World.

#[global] Instance M_ret : MRet M := λ T x w, (Ret x, w).
#[global] Instance M_bind : MBind M := λ T U k m w,
  match m w with
  | (Ret x, w') => k x w'
  | (Raise e, w') => (Raise e, w')
  end.

Definition raise {T} (e : PyExc) : M T := λ w, (Raise e, w).

Definition emit (ev : Event) : M unit := λ w, (Ret tt, log ev w).

(** [try: body / except Exception as e: handler(e)] *)
Definition try_except_Exception {T} (body : M T) (handler : Exception → M T) : M T :=
  λ w, match body w with
       | (Raise (Exc e), w') => handler e w'
       | other => other
       end.

(** [huggingface_hub.snapshot_download], the external collaborator: given
    its four arguments and the file system, it returns or raises and
    leaves a file system behind *)
Definition Hub : Type :=
  ArgValue → string → bool → bool → FileSystem → Result unit * FileSystem.

(** [os.path.join(a, b)] on POSIX; a [b] that is not a string is the
    [TypeError] of [genericpath._check_arg_types] *)
Definition posixpath_join (a b : string) : string :=
  if PyStr.startswith "/" b then b
  else if bool_decide (a = EmptyString) || PyStr.endswith "/" a then a +:+ b
  else a +:+ "/" +:+ b.

Definition os_path_join (a : string) (b : ArgValue) : M string :=
  match b with
  | Str b => mret (posixpath_join a b)
  | StrList _ =>
      raise (Exc (OtherException "TypeError"
        "join() argument must be str, bytes, or os.PathLike object, not 'list'"))
  end.

(** [os.environ.get(key, default)] *)
Definition environ_get (environ : gmap string string) (key default : string) : string :=
  match environ !! key with
  | Some v => v
  | None => default
  end.

Section Script.

Variable hub : Hub.
Variable environ : gmap string string.

Definition print (line : string) : M unit := emit (Stdout line).

Definition sys_exit (code : Z) : M unit := raise (SystemExit code).

(** [Path(output_dir).mkdir(parents=True, exist_ok=True)] *)
Definition Path_mkdir (output_dir : string) : M unit := λ w,
  match Fs.mkdir true true (files w) (Fs.parse_path output_dir) with
  | (None, fs') =>
      (Ret tt, {| files := fs'; trace := trace w ++ [Mkdir output_dir None] |})
  | (Some e, fs') =>
      (Raise (Exc e), {| files := fs'; trace := trace w ++ [Mkdir output_dir (Some e)] |})
  end.

Definition snapshot_download (repo_id : ArgValue) (local_dir : string)
    (local_dir_use_symlinks resume_download : bool) : M unit := λ w,
  let '(outcome, fs') :=
    hub repo_id local_dir local_dir_use_symlinks resume_download (files w) in
  (outcome,
   {| files := fs';
      trace := trace w ++ [SnapshotDownload repo_id local_dir local_dir_use_symlinks
                             resume_download (files w) outcome] |}).

(** [parser.parse_args()]: the help goes to stdout and the process exits
    with 0; an error prints the usage and the message and exits with 2 *)
Definition parse_args (argv : list string) : M Argparse.Namespace :=
  match Argparse.parse_args argv with
  | Argparse.Continue args => mret args
  | Argparse.PrintHelpAndExit => emit PrintHelp ;; raise (SystemExit 0)
  | Argparse.Error e => emit (UsageError e) ;; raise (SystemExit 2)
  end.

Definition download_model (model_name : ArgValue) (output_dir : string) : M unit :=
  try_except_Exception
    (print ("Downloading " +:+ format model_name +:+ " to " +:+ output_dir +:+ "...") ;;
     (* Create output directory *)
     Path_mkdir output_dir ;;
     (* Download the model *)
     snapshot_download model_name output_dir false true ;;
     print ("Successfully downloaded " +:+ format model_name))
    (λ e,
     print ("Error downloading " +:+ format model_name +:+ ": " +:+ exc_str e) ;;
     sys_exit 1).

(** [main()], with [argv] for [sys.argv[1:]] *)
Definition main (argv : list string) : M unit :=
  args ← parse_args argv ;
  (* Get base models directory *)
  let models_dir := environ_get environ "MODELS_DIR" "/models" in
  output_path ← os_path_join models_dir (Argparse.output args) ;
  download_model (Argparse.model args) output_path.

(** The interpreter around [main()]: the exit status of the process.  An
    exception that nobody caught is printed as a traceback. *)
Definition run (argv : list string) (fs : FileSystem) : Z * World :=
  match main argv {| files := fs; trace := [] |} with
  | (Ret _, w) => (0, w)
  | (Raise (SystemExit code), w) => (code, w)
  | (Raise KeyboardInterrupt, w) => (130, log (Traceback KeyboardInterrupt) w)
  | (Raise (Exc e), w) => (1, log (Traceback (Exc e)) w)
  end.

End Script.

(** ** Sample worlds

    The scenario of the specification, [MODELS_DIR=/data tool --model
    org/example-model --output example], and a few file systems and hub
    behaviours to run the script on. *)

Definition example_environ : gmap string string := {[ "MODELS_DIR" := "/data" ]}.

Definition example_argv : list string :=
  ["--model"; "org/example-model"; "--output"; "example"].

Definition example_args : Argparse.Namespace :=
  {| Argparse.model := Str "org/example-model"; Argparse.output := Str "example" |}.

(** Only the root directory *)
Definition fs_bare : FileSystem :=
  {| Fs.nodes := {[ [] := Fs.Dir true ]}; Fs.cwd := [] |}.

(** [/data/example] is there already *)
Definition fs_ready : FileSystem :=
  {| Fs.nodes := <[ ["data"; "example"] := Fs.Dir true ]>
                   (<[ ["data"] := Fs.Dir true ]> {[ [] := Fs.Dir true ]});
     Fs.cwd := [] |}.

(** [/models] is a regular file *)
Definition fs_blocked : FileSystem :=
  {| Fs.nodes := <[ ["models"] := Fs.File ]> {[ [] := Fs.Dir true ]}; Fs.cwd := [] |}.

Definition hub_succeeds : Hub := λ _ _ _ _ fs, (Ret tt, fs).

Definition hub_fails (e : Exception) : Hub := λ _ _ _ _ fs, (Raise (Exc e), fs).

Definition repository_not_found : Exception :=
  OtherException "RepositoryNotFoundError" "404 Client Error".

Definition is_download (ev : Event) : bool :=
  match ev with
  | SnapshotDownload _ _ _ _ _ _ => true
  | _ => false
  end.

Definition is_mkdir (ev : Event) : bool :=
  match ev with
  | Mkdir _ _ => true
  | _ => false
  end.

(** How many times the hub was called *)
Definition downloads (tr : list Event) : nat := length (List.filter is_download tr).

(** The path that [main] resolves for the output name [o] *)
Definition destination (environ : gmap string string) (o : string) : string :=
  posixpath_join (environ_get environ "MODELS_DIR" "/models") o.

(** ** The runs of the script

    Every run has one of eight shapes: the exit status, the file system
    left behind and the whole trace are determined by what the parser, the
    directory creation and the hub do. *)
Inductive RunShape (hub : Hub) (environ : gmap string string)
    (argv : list string) (fs : FileSystem) : Z → World → Prop :=
| run_help :
    Argparse.parse_args argv = Argparse.PrintHelpAndExit →
    RunShape hub environ argv fs 0 {| files := fs; trace := [PrintHelp] |}
| run_usage_error e :
    Argparse.parse_args argv = Argparse.Error e →
    RunShape hub environ argv fs 2 {| files := fs; trace := [UsageError e] |}
| run_join_type_error args l :
    Argparse.parse_args argv = Argparse.Continue args →
    Argparse.output args = StrList l →
    RunShape hub environ argv fs 1
      {| files := fs;
         trace := [Traceback (Exc (OtherException "TypeError"
           "join() argument must be str, bytes, or os.PathLike object, not 'list'"))] |}
| run_mkdir_raised args o e fs1 :
    Argparse.parse_args argv = Argparse.Continue args →
    Argparse.output args = Str o →
    Fs.mkdir true true fs (Fs.parse_path (destination environ o)) = (Some e, fs1) →
    RunShape hub environ argv fs 1
      {| files := fs1;
         trace :=
           [Stdout ("Downloading " +:+ format (Argparse.model args) +:+ " to "
                    +:+ destination environ o +:+ "...");
            Mkdir (destination environ o) (Some e);
            Stdout ("Error downloading " +:+ format (Argparse.model args) +:+ ": "
                    +:+ exc_str e)] |}
| run_download_returned args o fs1 fs2 :
    Argparse.parse_args argv = Argparse.Continue args →
    Argparse.output args = Str o →
    Fs.mkdir true true fs (Fs.parse_path (destination environ o)) = (None, fs1) →
    hub (Argparse.model args) (destination environ o) false true fs1 = (Ret tt, fs2) →
    RunShape hub environ argv fs 0
      {| files := fs2;
         trace :=
           [Stdout ("Downloading " +:+ format (Argparse.model args) +:+ " to "
                    +:+ destination environ o +:+ "...");
            Mkdir (destination environ o) None;
            SnapshotDownload (Argparse.model args) (destination environ o) false true
              fs1 (Ret tt);
            Stdout ("Successfully downloaded " +:+ format (Argparse.model args))] |}
| run_download_raised args o fs1 fs2 e :
    Argparse.parse_args argv = Argparse.Continue args →
    Argparse.output args = Str o →
    Fs.mkdir true true fs (Fs.parse_path (destination environ o)) = (None, fs1) →
    hub (Argparse.model args) (destination environ o) false true fs1
      = (Raise (Exc e), fs2) →
    RunShape hub environ argv fs 1
      {| files := fs2;
         trace :=
           [Stdout ("Downloading " +:+ format (Argparse.model args) +:+ " to "
                    +:+ destination environ o +:+ "...");
            Mkdir (destination environ o) None;
            SnapshotDownload (Argparse.model args) (destination environ o) false true
              fs1 (Raise (Exc e));
            Stdout ("Error downloading " +:+ format (Argparse.model args) +:+ ": "
                    +:+ exc_str e)] |}
| run_download_exited args o fs1 fs2 code :
    Argparse.parse_args argv = Argparse.Continue args →
    Argparse.output args = Str o →
    Fs.mkdir true true fs (Fs.parse_path (destination environ o)) = (None, fs1) →
    hub (Argparse.model args) (destination environ o) false true fs1
      = (Raise (SystemExit code), fs2) →
    RunShape hub environ argv fs code
      {| files := fs2;
         trace :=
           [Stdout ("Downloading " +:+ format (Argparse.model args) +:+ " to "
                    +:+ destination environ o +:+ "...");
            Mkdir (destination environ o) None;
            SnapshotDownload (Argparse.model args) (destination environ o) false true
              fs1 (Raise (SystemExit code))] |}
| run_download_interrupted args o fs1 fs2 :
    Argparse.parse_args argv = Argparse.Continue args →
    Argparse.output args = Str o →
    Fs.mkdir true true fs (Fs.parse_path (destination environ o)) = (None, fs1) →
    hub (Argparse.model args) (destination environ o) false true fs1
      = (Raise KeyboardInterrupt, fs2) →
    RunShape hub environ argv fs 130
      {| files := fs2;
         trace :=
           [Stdout ("Downloading " +:+ format (Argparse.model args) +:+ " to "
                    +:+ destination environ o +:+ "...");
            Mkdir (destination environ o) None;
            SnapshotDownload (Argparse.model args) (destination environ o) false true
              fs1 (Raise KeyboardInterrupt);
            Traceback KeyboardInterrupt] |}.

(** ** Notions for the further properties *)

(** [fs'] is [fs] with directories added: the working directory is the
    same, every entry of [fs] is in [fs'] as it was, and whatever is new in
    [fs'] is a directory of the process. *)
Definition fs_extends (fs fs' : FileSystem) : Prop :=
  Fs.cwd fs' = Fs.cwd fs
  ∧ ∀ k,
      match Fs.nodes fs !! k with
      | Some n => Fs.nodes fs' !! k = Some n
      | None => Fs.nodes fs' !! k = None ∨ Fs.nodes fs' !! k = Some (Fs.Dir true)
      end.




(** ** The file system: what [mkdir] guarantees *)
Module FsFacts.
Import Fs.

Lemma walk_app m cur l1 l2 :
  walk m cur (l1 ++ l2) =
  match walk m cur l1 with
  | inl e => inl e
  | inr place => walk m place l2
  end.
Proof.
  revert cur. induction l1 as [|name l1 IH]; intros cur; simpl; [done|].
  destruct (m !! cur) as [[w|]|]; auto.
Qed.

(** A new entry where there was none does not disturb a walk. *)
Lemma walk_insert_fresh m k v cur names place :
  m !! k = None →
  walk m cur names = inr place →
  walk (<[k:=v]> m) cur names = inr place.
Proof.
  intros Hk. revert cur. induction names as [|name names IH]; intros cur; simpl; [done|].
  destruct (m !! cur) as [[w|]|] eqn:Hcur; try done.
  intros Hwalk. rewrite lookup_insert_ne by congruence.
  rewrite Hcur. by apply IH.
Qed.

Lemma parts_snoc_or_nil (l : list string) :
  l = [] ∨ ∃ l' x, l = l' ++ [x].
Proof.
  destruct l as [|x l] using rev_ind; [by left|right; eauto].
Qed.



(** [os.mkdir] leaves a directory where it succeeds. *)
Lemma os_mkdir_is_dir fs p fs' : os_mkdir fs p = inr fs' → is_dir fs' p = true.
Proof.
  destruct p as [r l]. unfold os_mkdir; simpl.
  destruct (parts_snoc_or_nil l) as [->|(l' & x & ->)]; simpl.
  { destruct (nodes fs !! origin fs r); done. }
  rewrite reverse_snoc, reverse_involutive.
  destruct (walk (nodes fs) (origin fs r) l') as [e|place] eqn:Hwalk; [done|].
  destruct (nodes fs !! place) as [[w|]|] eqn:Hplace; try done.
  destruct (decide (x = "..")); [done|].
  destruct (nodes fs !! (place ++ [x])) eqn:Hnew; [done|].
  destruct w; [|done]. intros [= <-].
  unfold is_dir, stat; simpl. rewrite walk_app.
  rewrite (walk_insert_fresh _ _ _ _ _ _ Hnew Hwalk). simpl.
  rewrite lookup_insert_ne by congruence. rewrite Hplace.
  rewrite decide_False by done. by rewrite lookup_insert_eq.
Qed.

(** [os.mkdir] on a directory that is there fails with [EEXIST]. *)
Lemma os_mkdir_of_dir fs p : is_dir fs p = true → os_mkdir fs p = inl EEXIST.
Proof.
  destruct p as [r l]. unfold is_dir, stat, os_mkdir; simpl.
  destruct (parts_snoc_or_nil l) as [->|(l' & x & ->)]; simpl.
  { destruct (nodes fs !! origin fs r); done. }
  rewrite reverse_snoc, reverse_involutive, walk_app.
  destruct (walk (nodes fs) (origin fs r) l') as [e|place]; [done|]. simpl.
  destruct (nodes fs !! place) as [[w|]|]; try done.
  destruct (decide (x = "..")); [done|].
  destruct (nodes fs !! (place ++ [x])); done.
Qed.

Lemma mkdir_single_is_dir fs p fs' :
  mkdir_single true fs p = (None, fs') → is_dir fs' p = true.
Proof.
  unfold mkdir_single.
  destruct (os_mkdir fs p) as [e|fs1] eqn:Hos.
  - destruct e; simpl; try done; destruct (is_dir fs p) eqn:Hd; simpl; congruence.
  - intros [= <-]. by eapply os_mkdir_is_dir.
Qed.

(** A [mkdir(parents=True, exist_ok=True)] that does not raise leaves the
    directory in place. *)
Lemma mkdir_is_dir fs p fs' :
  mkdir true true fs p = (None, fs') → is_dir fs' p = true.
Proof.
  destruct p as [r l]. unfold mkdir; simpl.
  destruct (reverse l) as [|x rl] eqn:Hrev; simpl;
    apply (f_equal reverse) in Hrev; rewrite reverse_involutive in Hrev; subst l.
  - destruct (os_mkdir fs _) as [e|fs1] eqn:Hos.
    + destruct e; simpl; try done;
        destruct (is_dir fs _) eqn:Hd; simpl; congruence.
    + intros [= <-]. by eapply os_mkdir_is_dir.
  - destruct (os_mkdir fs _) as [e|fs1] eqn:Hos.
    + destruct e; simpl; try (destruct (is_dir fs _) eqn:Hd; simpl; congruence).
      destruct (mkdir_parents true fs r rl) as [[e1|] fs1]; [done|].
      apply mkdir_single_is_dir.
    + intros [= <-]. by eapply os_mkdir_is_dir.
Qed.

(** On a directory that is there, [mkdir(parents=True, exist_ok=True)]
    changes nothing and raises nothing. *)
Lemma mkdir_of_dir fs p : is_dir fs p = true → mkdir true true fs p = (None, fs).
Proof.
  intros Hd. pose proof (os_mkdir_of_dir _ _ Hd) as Hos.
  destruct p as [r l]. unfold mkdir; simpl.
  assert (Hself : {| root := r; parts := reverse (reverse l) |} = {| root := r; parts := l |})
    by (by rewrite reverse_involutive).
  destruct (reverse l) as [|x rl]; simpl in *; rewrite Hself, Hos, Hd; done.
Qed.

(** Under a writable directory, a name that is free becomes a directory,
    and nothing else changes. *)
Lemma mkdir_creates_leaf fs r l name place :
  walk (nodes fs) (origin fs r) l = inr place →
  nodes fs !! place = Some (Dir true) →
  name ≠ ".." →
  nodes fs !! (place ++ [name]) = None →
  mkdir true true fs {| root := r; parts := l ++ [name] |}
  = (None, {| nodes := <[place ++ [name] := Dir true]> (nodes fs); cwd := cwd fs |}).
Proof.
  intros Hwalk Hplace Hname Hfree.
  assert (os_mkdir fs {| root := r; parts := l ++ [name] |}
          = inr {| nodes := <[place ++ [name] := Dir true]> (nodes fs); cwd := cwd fs |})
    as Hos.
  { unfold os_mkdir; simpl. rewrite reverse_snoc, reverse_involutive, Hwalk, Hplace.
    rewrite decide_False by done. by rewrite Hfree. }
  unfold mkdir; cbn [root parts]. rewrite reverse_snoc. cbn [mkdir_parents].
  replace (reverse (name :: reverse l)) with (l ++ [name])
    by (by rewrite reverse_cons, reverse_involutive).
  by rewrite Hos.
Qed.

(** [pathlib] on a few paths, as CPython 3.11 answers them. *)
Example str_of_parsed_paths :
  str_path (parse_path "z/./y//") = "z/y"
  ∧ str_path (parse_path "//data/x") = "//data/x"
  ∧ str_path (parse_path "///data/x") = "/data/x"
  ∧ str_path (parse_path EmptyString) = ".".
Proof. repeat split; reflexivity. Qed.

Example mkdir_creates_the_parents :
  mkdir true true fs_bare (parse_path "/data/example") = (None, fs_ready).
Proof.
  apply (f_equal2 pair); [reflexivity|].
  apply (f_equal2 Build_FileSystem); [|reflexivity].
  apply map_eq. intros k. vm_compute. repeat (case_match; try reflexivity).
Qed.

Example mkdir_under_a_file :
  mkdir true true fs_blocked (parse_path "/models/a/b")
  = (Some (OSError ENOTDIR "/models/a/b"), fs_blocked)
  ∧ mkdir true true fs_blocked (parse_path "/models")
    = (Some (OSError EEXIST "/models"), fs_blocked).
Proof. split; reflexivity. Qed.

Example mkdir_through_dotdot :
  (mkdir true true fs_bare (parse_path "/q/../r")).1 = None
  ∧ is_dir (mkdir true true fs_bare (parse_path "/q/../r")).2 (parse_path "/q") = true
  ∧ is_dir (mkdir true true fs_bare (parse_path "/q/../r")).2 (parse_path "/r") = true.
Proof. repeat split; vm_compute; reflexivity. Qed.

Example str_of_os_error :
  exc_str (OSError EACCES "/models/x") = "[Errno 13] Permission denied: '/models/x'"
  ∧ PyStr.repr "a'b" = String PyStr.dquote ("a'b" +:+ String PyStr.dquote EmptyString).
Proof. split; reflexivity. Qed.

End FsFacts.

(** ** The parser: an action is taken only for a flag that is given *)
Module ArgparseFacts.
Import Argparse.

Lemma classify_option args items arg t :
  classify args = inr items →
  (arg, O t) ∈ items →
  arg ∈ before_dashdash args ∧ parse_optional arg = inr (Some t).
Proof.
  revert items. induction args as [|a rest IH]; intros items; simpl.
  { intros [= <-] Hin. by apply elem_of_nil in Hin. }
  destruct (decide (a = "--")) as [->|Hne].
  { intros [= <-] Hin. apply elem_of_cons in Hin as [Heq|Hin]; [done|].
    apply list_elem_of_fmap in Hin as (x & Heq & _). done. }
  destruct (parse_optional a) as [e|p] eqn:Hp; [done|].
  destruct (classify rest) as [e|items'] eqn:Hc; [done|].
  intros [= <-] Hin. apply elem_of_cons in Hin as [Heq|Hin].
  - injection Heq as -> Hpat. destruct p as [t'|]; [|done].
    injection Hpat as ->. split; [apply list_elem_of_here|done].
  - destruct (IH _ eq_refl Hin) as [Hmem Hopt].
    split; [by apply list_elem_of_further|done].
Qed.

(** The only option string of two characters is [-h]. *)
Lemma assoc_short c0 c a :
  assoc (String c0 (String c EmptyString)) option_string_actions = Some a → a = Help.
Proof.
  unfold option_string_actions; simpl.
  repeat (case_decide; simplify_eq; try done); congruence.
Qed.

#[local] Arguments assoc : simpl never.

Lemma explicit_argument_same a os e acc action_tuples next :
  explicit_argument a os e acc = inr (action_tuples, next) →
  (∀ t, t ∈ acc → t.1 = a) →
  (∀ t, t ∈ action_tuples → t.1 = a) ∧ (∀ b, next = Some b → b = a).
Proof.
  revert a os acc. induction e as [|c e' IH]; intros a os acc Hex Hacc.
  - destruct a; simpl in Hex; try done; injection Hex as <- <-;
      (split; [|done]); intros t [Ht| ->%list_elem_of_singleton]%elem_of_app; auto.
  - destruct a; simpl in Hex.
    + destruct os as [|char [|c1 os']]; try done.
      destruct (in_prefix_chars c1); [done|].
      destruct (assoc _ option_string_actions) as [a'|] eqn:Ha; [|done].
      apply assoc_short in Ha as ->.
      assert (∀ t, t ∈ acc ++ [(Help, [])] → t.1 = Help) as Hacc'.
      { intros t [Ht| ->%list_elem_of_singleton]%elem_of_app; auto. }
      destruct e' as [|c' e''].
      * injection Hex as <- <-. split; [done|]. by intros b [= <-].
      * by eapply IH.
    + injection Hex as <- <-; (split; [|done]).
      intros t [Ht| ->%list_elem_of_singleton]%elem_of_app; auto.
    + injection Hex as <- <-; (split; [|done]).
      intros t [Ht| ->%list_elem_of_singleton]%elem_of_app; auto.
Qed.

Lemma take_actions_continue ts st st' :
  take_actions ts st = Continue st' →
  (ns_model st' = ns_model st ∨ ∃ t, t ∈ ts ∧ t.1 = Model)
  ∧ (ns_output st' = ns_output st ∨ ∃ t, t ∈ ts ∧ t.1 = Output).
Proof.
  revert st. induction ts as [|[a l] ts IH]; intros st; simpl.
  { intros [= <-]. auto. }
  unfold take_action; simpl. destruct a; simpl; [done| |];
    intros [Hm Ho]%IH; simpl in *; split.
  - right. eexists; split; [apply list_elem_of_here|done].
  - destruct Ho as [->|(t & Ht & Ho)]; [by left|].
    right. eexists; split; [by apply list_elem_of_further|done].
  - destruct Hm as [->|(t & Ht & Hm)]; [by left|].
    right. eexists; split; [by apply list_elem_of_further|done].
  - right. eexists; split; [apply list_elem_of_here|done].
Qed.

Lemma take_actions_help ts st :
  take_actions ts st = PrintHelpAndExit → ∃ t, t ∈ ts ∧ t.1 = Help.
Proof.
  revert st. induction ts as [|[a l] ts IH]; intros st; simpl; [done|].
  unfold take_action; simpl. destruct a; simpl.
  - intros _. eexists; split; [apply list_elem_of_here|done].
  - intros (t & Ht & Hh)%IH. eexists; split; [by apply list_elem_of_further|done].
  - intros (t & Ht & Hh)%IH. eexists; split; [by apply list_elem_of_further|done].
Qed.

(** One option string: an error, or actions of its own action only, and
    then the rest of the command line (less the value taken, if any). *)
Lemma consume_option arg a os ex rest st :
  (∃ e, consume ((arg, O (Some a, os, ex)) :: rest) st = Error e)
  ∨ ∃ action_tuples rest',
      (∀ t, t ∈ action_tuples → t.1 = a)
      ∧ (rest' = rest ∨ ∃ value, rest = (value, A) :: rest')
      ∧ consume ((arg, O (Some a, os, ex)) :: rest) st
        = and_then (take_actions action_tuples st) (consume rest').
Proof.
  simpl.
  destruct (match ex with
            | Some e => explicit_argument a os e []
            | None => inr ([], Some a)
            end) as [e|[action_tuples next]] eqn:Hpending; [left; eauto|].
  assert ((∀ t, t ∈ action_tuples → t.1 = a) ∧ (∀ b, next = Some b → b = a))
    as [Htuples Hnext].
  { destruct ex as [e|].
    - eapply explicit_argument_same; [done|]. by intros t ?%elem_of_nil.
    - injection Hpending as <- <-. split; [by intros t ?%elem_of_nil|by intros b [= <-]]. }
  destruct next as [a'|].
  - rewrite (Hnext a' eq_refl).
    assert (∀ l t, t ∈ action_tuples ++ [(a, l)] → t.1 = a) as Hsnoc.
    { intros l t [Ht| ->%list_elem_of_singleton]%elem_of_app; auto. }
    destruct (nargs a) eqn:Hn.
    + right. exists (action_tuples ++ [(a, [])]), rest.
      split; [apply Hsnoc|]. split; [by left|done].
    + destruct rest as [|[value [|t|]] rest']; try (left; eauto; fail).
      right. exists (action_tuples ++ [(a, [value])]), rest'.
      split; [apply Hsnoc|]. split; [right; by exists value|done].
  - right. exists action_tuples, rest. split; [done|]. split; [by left|done].
Qed.

Lemma option_of_cons a it items : option_of a items → option_of a (it :: items).
Proof. intros (arg & os & ex & H). exists arg, os, ex. by apply list_elem_of_further. Qed.

Lemma consume_continue items st st' :
  consume items st = Continue st' →
  (ns_model st' = ns_model st ∨ option_of Model items)
  ∧ (ns_output st' = ns_output st ∨ option_of Output items).
Proof.
  remember (length items) as n eqn:Hn. revert items st Hn.
  induction n as [n IH] using lt_wf_ind. intros items st Hn.
  destruct items as [|[arg pat] rest]; [intros [= <-]; auto|].
  assert (∀ st0, consume rest st0 = Continue st' →
            (ns_model st' = ns_model st0 ∨ option_of Model ((arg, pat) :: rest))
            ∧ (ns_output st' = ns_output st0 ∨ option_of Output ((arg, pat) :: rest)))
    as Hrest.
  { intros st0 H.
    destruct (IH (length rest) ltac:(subst n; simpl; lia) rest st0 eq_refl H) as [Hm Ho].
    split; [destruct Hm|destruct Ho]; auto using option_of_cons. }
  destruct pat as [|[[[a|] os] ex]|];
    try (simpl; intros H; apply Hrest in H; exact H).
  destruct (consume_option arg a os ex rest st)
    as [[e ->]|(ts & rest' & Hts & Hrest' & ->)]; [done|].
  destruct (take_actions ts st) as [st1| |e] eqn:Htake; simpl; try done.
  intros Hc.
  assert ((ns_model st' = ns_model st1 ∨ option_of Model ((arg, O (Some a, os, ex)) :: rest))
          ∧ (ns_output st' = ns_output st1 ∨ option_of Output ((arg, O (Some a, os, ex)) :: rest)))
    as [Hm Ho].
  { destruct Hrest' as [->|[value ->]]; [by apply Hrest|].
    destruct (IH (length rest') ltac:(subst n; simpl; lia) rest' st1 eq_refl Hc) as [Hm Ho].
    split; [destruct Hm|destruct Ho]; auto using option_of_cons. }
  apply take_actions_continue in Htake as [Hm1 Ho1].
  assert (∀ b, (∃ t, t ∈ ts ∧ t.1 = b) → option_of b ((arg, O (Some a, os, ex)) :: rest))
    as Here.
  { intros b (t & Ht & <-). rewrite (Hts _ Ht). exists arg, os, ex. apply list_elem_of_here. }
  split.
  - destruct Hm as [->|]; [|by right]. destruct Hm1 as [->|]; [by left|right; auto].
  - destruct Ho as [->|]; [|by right]. destruct Ho1 as [->|]; [by left|right; auto].
Qed.

Lemma consume_help items st :
  consume items st = PrintHelpAndExit → option_of Help items.
Proof.
  remember (length items) as n eqn:Hn. revert items st Hn.
  induction n as [n IH] using lt_wf_ind. intros items st Hn.
  destruct items as [|[arg pat] rest]; [done|].
  assert (∀ st0, consume rest st0 = PrintHelpAndExit →
            option_of Help ((arg, pat) :: rest)) as Hrest.
  { intros st0 H. apply option_of_cons.
    exact (IH (length rest) ltac:(subst n; simpl; lia) rest st0 eq_refl H). }
  destruct pat as [|[[[a|] os] ex]|];
    try (simpl; intros H; apply Hrest in H; exact H).
  destruct (consume_option arg a os ex rest st)
    as [[e ->]|(ts & rest' & Hts & Hrest' & ->)]; [done|].
  destruct (take_actions ts st) as [st1| |e] eqn:Htake; simpl; try done.
  - intros Hc. destruct Hrest' as [->|[value ->]]; [by eapply Hrest|].
    do 2 apply option_of_cons.
    exact (IH (length rest') ltac:(subst n; simpl; lia) rest' st1 eq_refl Hc).
  - intros _. apply take_actions_help in Htake as (t & Ht & Hh).
    rewrite (Hts _ Ht) in Hh. subst a. exists arg, os, ex. apply list_elem_of_here.
Qed.

Lemma option_of_gives a args items :
  classify args = inr items → option_of a items → gives a args = true.
Proof.
  intros Hc (arg & os & ex & Hin).
  destruct (classify_option _ _ _ _ Hc Hin) as [Hmem Hopt].
  unfold gives. apply existsb_exists. exists arg. split; [by apply list_elem_of_In|].
  unfold selects. rewrite Hopt. by apply bool_decide_eq_true.
Qed.

(** Both flags are given whenever [parse_args] returns. *)
Lemma parse_args_returns argv args :
  parse_args argv = Continue args →
  gives Model argv = true ∧ gives Output argv = true.
Proof.
  unfold parse_args. destruct (classify argv) as [e|items] eqn:Hc; [done|].
  destruct (consume items initial) as [st| |e] eqn:Hcons; simpl; try done.
  apply consume_continue in Hcons as [Hm Ho]. simpl in *.
  destruct (ns_model st) eqn:Hms; [|done]. destruct (ns_output st) eqn:Hos; [|done].
  intros _. split.
  - destruct Hm as [?|Hm]; [done|]. by eapply option_of_gives.
  - destruct Ho as [?|Ho]; [done|]. by eapply option_of_gives.
Qed.

(** The help is printed only when a help flag is given. *)
Lemma parse_args_help argv :
  parse_args argv = PrintHelpAndExit → gives Help argv = true.
Proof.
  unfold parse_args. destruct (classify argv) as [e|items] eqn:Hc; [done|].
  destruct (consume items initial) as [st| |e] eqn:Hcons; simpl; try done.
  - destruct (ns_model st), (ns_output st); try done. destruct (extras st); done.
  - intros _. apply consume_help in Hcons. by eapply option_of_gives.
Qed.

(** The plain invocation [--model m --output o] is parsed for every [m]
    and [o] that are read as arguments and not as options. *)
Lemma parse_args_plain m o :
  parse_optional m = inr None → m ≠ "--" →
  parse_optional o = inr None → o ≠ "--" →
  parse_args ["--model"; m; "--output"; o]
  = Continue {| model := Str m; output := Str o |}.
Proof.
  intros Hm Hm' Ho Ho'. unfold parse_args.
  assert (classify ["--model"; m; "--output"; o]
          = inr [("--model", O (Some Model, "--model", None)); (m, A);
                 ("--output", O (Some Output, "--output", None)); (o, A)]) as ->.
  { cbn [classify]. rewrite (decide_False (P := m = "--")) by done.
    rewrite (decide_False (P := o = "--")) by done. by rewrite Hm, Ho. }
  cbn. unfold get_values; cbn.
  rewrite (decide_False (P := m = "--")) by done.
  by rewrite (decide_False (P := o = "--")) by done.
Qed.

(** The parser on a few command lines, as CPython 3.11 answers them. *)
Example parse_abbreviations :
  parse_args ["--mo"; "a"; "--o=b"] = Continue {| model := Str "a"; output := Str "b" |}.
Proof. reflexivity. Qed.

Example parse_last_value_wins :
  parse_args ["--model"; "a"; "--model"; "c"; "--output"; "b"]
  = Continue {| model := Str "c"; output := Str "b" |}.
Proof. reflexivity. Qed.

Example parse_negative_number_is_a_value :
  parse_args ["--model"; "-1"; "--output"; "-.5"]
  = Continue {| model := Str "-1"; output := Str "-.5" |}.
Proof. reflexivity. Qed.

Example parse_option_like_value_is_refused :
  parse_args ["--model"; "-x"; "--output"; "b"] = Error (ExpectedOneArgument Model).
Proof. reflexivity. Qed.

Example parse_explicit_dashdash :
  parse_args ["--model=--"; "--output"; "b"]
  = Continue {| model := StrList []; output := Str "b" |}.
Proof. reflexivity. Qed.

Example parse_nothing :
  parse_args [] = Error (RequiredArguments ["--model"; "--output"]).
Proof. reflexivity. Qed.

Example parse_extra_argument :
  parse_args ["--model"; "a"; "--output"; "b"; "extra"]
  = Error (UnrecognizedArguments ["extra"]).
Proof. reflexivity. Qed.

Example parse_ambiguous_comes_first :
  parse_args ["--help"; "--=x"]
  = Error (AmbiguousOption "--=x" ["--help"; "--model"; "--output"]).
Proof. reflexivity. Qed.

Example parse_help_after_unknown_option :
  parse_args ["--bogus"; "--help"] = PrintHelpAndExit.
Proof. reflexivity. Qed.

Example parse_help_with_both_flags :
  parse_args ["--model"; "a"; "--output"; "b"; "-h"] = PrintHelpAndExit.
Proof. reflexivity. Qed.

Example parse_help_cluster :
  parse_args ["-hh"] = PrintHelpAndExit
  ∧ parse_args ["-hx"] = Error (IgnoredExplicitArgument Help "x")
  ∧ parse_args ["--help=x"] = Error (IgnoredExplicitArgument Help "x").
Proof. repeat split; reflexivity. Qed.

Example parse_after_dashdash :
  parse_args ["--"; "--model"; "a"] = Error (RequiredArguments ["--model"; "--output"])
  ∧ gives Model ["--"; "--model"; "a"] = false.
Proof. split; reflexivity. Qed.

End ArgparseFacts.

(** ** The runs of the script: their shapes *)

Lemma main_parsed hub environ argv args w :
  Argparse.parse_args argv = Argparse.Continue args →
  main hub environ argv w =
  (output_path ← os_path_join (environ_get environ "MODELS_DIR" "/models")
                   (Argparse.output args) ;
   download_model hub (Argparse.model args) output_path) w.
Proof.
  intros Hp. unfold main, parse_args. rewrite Hp. reflexivity.
Qed.

Lemma main_parsed_str hub environ argv args o w :
  Argparse.parse_args argv = Argparse.Continue args →
  Argparse.output args = Str o →
  main hub environ argv w =
  download_model hub (Argparse.model args) (destination environ o) w.
Proof.
  intros Hp Ho. rewrite (main_parsed _ _ _ _ _ Hp), Ho. reflexivity.
Qed.

Lemma run_shape hub environ argv fs :
  RunShape hub environ argv fs (run hub environ argv fs).1 (run hub environ argv fs).2.
Proof.
  unfold run.
  destruct (Argparse.parse_args argv) as [args| |e] eqn:Hp.
  - destruct (Argparse.output args) as [o|l] eqn:Ho.
    + rewrite (main_parsed_str _ _ _ _ _ _ Hp Ho).
      unfold download_model, try_except_Exception, print, emit, Path_mkdir,
        snapshot_download, sys_exit, raise, mbind, M_bind, log.
      cbn [files trace app].
      destruct (Fs.mkdir true true fs (Fs.parse_path (destination environ o)))
        as [[e|] fs1] eqn:Hmk; cbn [files trace app fst snd].
      { by eapply run_mkdir_raised. }
      destruct (hub (Argparse.model args) (destination environ o) false true fs1)
        as [[[]|[code| |e]] fs2] eqn:Hhub; cbn [files trace app fst snd].
      * by eapply run_download_returned.
      * by eapply run_download_exited.
      * by eapply run_download_interrupted.
      * by eapply run_download_raised.
    + rewrite (main_parsed _ _ _ _ _ Hp), Ho. simpl. by eapply run_join_type_error.
  - unfold main, parse_args. rewrite Hp. simpl. by apply run_help.
  - unfold main, parse_args. rewrite Hp. simpl. by apply run_usage_error.
Qed.

(** Take a run apart: its shape, then which entry of the trace is which. *)
Ltac run_cases hub environ argv fs :=
  let Hs := fresh "Hshape" in
  pose proof (run_shape hub environ argv fs) as Hs;
  destruct (run hub environ argv fs) as [? ?]; cbn [fst snd] in *;
  inversion Hs; subst; clear Hs; cbn [files trace] in *.

Ltac same_result :=
  repeat match goal with
         | H1 : ?t = _, H2 : ?t = _ |- _ => rewrite H1 in H2; simplify_eq
         end.

Ltac pick_event H :=
  repeat (apply elem_of_cons in H as [H|H]; [try discriminate H|]);
  try (apply elem_of_nil in H; destruct H).

(** The scenario of the specification: the destination [/data/example] is
    created, the hub is called for [org/example-model], the confirmation is
    printed and the status is 0. *)
Example specification_scenario :
  run hub_succeeds example_environ example_argv fs_bare
  = (0, {| files := fs_ready;
           trace := [Stdout "Downloading org/example-model to /data/example...";
                     Mkdir "/data/example" None;
                     SnapshotDownload (Str "org/example-model") "/data/example"
                       false true fs_ready (Ret tt);
                     Stdout "Successfully downloaded org/example-model"] |}).
Proof.
  pose proof FsFacts.mkdir_creates_the_parents as Hmk.
  unfold run. rewrite (main_parsed_str _ _ _ example_args "example") by reflexivity.
  unfold download_model, try_except_Exception, print, emit, Path_mkdir,
    snapshot_download, sys_exit, raise, mbind, M_bind, log.
  cbn [files trace app].
  change (destination example_environ "example") with "/data/example".
  rewrite Hmk. reflexivity.
Qed.

(** ** The claims *)

(** C1.  With [--model] and [--output] given, the path handed to
    [download_model] is [join(base_dir, output)], where [base_dir] is the
    value of [MODELS_DIR] when it is set and [/models] when it is not; the
    directory created and the directory handed to the hub are that path.
    (For the one output that is not a string, the [--] of [--output=--],
    the join raises and nothing is handed to [download_model] at all.) *)
Theorem C1_destination_is_join hub environ argv args base_dir :
  Argparse.parse_args argv = Argparse.Continue args →
  base_dir = match environ !! "MODELS_DIR" with Some d => d | None => "/models" end →
  match Argparse.output args with
  | Str o =>
      (∀ w, main hub environ argv w
            = download_model hub (Argparse.model args) (posixpath_join base_dir o) w)
      ∧ ∀ fs ev, ev ∈ trace (run hub environ argv fs).2 →
          match ev with
          | Mkdir path _ => path = posixpath_join base_dir o
          | SnapshotDownload _ local_dir _ _ _ _ => local_dir = posixpath_join base_dir o
          | _ => True
          end
  | StrList _ =>
      ∀ fs ev, ev ∈ trace (run hub environ argv fs).2 →
        is_mkdir ev = false ∧ is_download ev = false
  end.
Proof.
  intros Hp ->. fold (environ_get environ "MODELS_DIR" "/models").
  destruct (Argparse.output args) as [o|l] eqn:Ho.
  - split.
    + intros w. by rewrite (main_parsed_str _ _ _ _ _ _ Hp Ho).
    + intros fs ev Hev. fold (destination environ o).
      run_cases hub environ argv fs; same_result; pick_event Hev; subst ev; done.
  - intros fs ev Hev.
    run_cases hub environ argv fs; same_result; pick_event Hev; subst ev; done.
Qed.





(** C6.  Whenever the hub is called, it is called with the model
    identifier as [repo_id], the resolved destination as [local_dir],
    [local_dir_use_symlinks=False] and [resume_download=True]. *)
Theorem C6_download_arguments hub environ argv fs
    repo_id local_dir symlinks resume found outcome :
  SnapshotDownload repo_id local_dir symlinks resume found outcome
    ∈ trace (run hub environ argv fs).2 →
  ∃ args o,
    Argparse.parse_args argv = Argparse.Continue args
    ∧ Argparse.output args = Str o
    ∧ repo_id = Argparse.model args
    ∧ local_dir = posixpath_join (environ_get environ "MODELS_DIR" "/models") o
    ∧ symlinks = false
    ∧ resume = true.
Proof.
  intros Hev. run_cases hub environ argv fs; pick_event Hev;
    injection Hev as -> -> -> -> -> ->; by exists args, o.
Qed.

(** C7, as amended.  When [--model] or [--output] is not given, the
    process ends inside [parse_args]: nothing is printed but the output of
    the parser, the file system is untouched, no directory is created and
    the hub is not called.  The status is 2, unless a help flag made the
    parser print the help and exit with 0. *)
Theorem C7_missing_flag_exits_in_parser hub environ argv fs :
  Argparse.gives Argparse.Model argv = false
  ∨ Argparse.gives Argparse.Output argv = false →
  ∃ status ev,
    run hub environ argv fs = (status, {| files := fs; trace := [ev] |})
    ∧ (ev = PrintHelp ∧ status = 0 ∨ ∃ e, ev = UsageError e ∧ status = 2)
    ∧ (Argparse.gives Argparse.Help argv = false → status = 2).
Proof.
  intros Hmissing.
  destruct (Argparse.parse_args argv) as [args| |e] eqn:Hp.
  - apply ArgparseFacts.parse_args_returns in Hp as [Hm Ho].
    destruct Hmissing; congruence.
  - exists 0, PrintHelp. split; [|split].
    + unfold run, main, parse_args. by rewrite Hp.
    + by left.
    + apply ArgparseFacts.parse_args_help in Hp. congruence.
  - exists 2, (UsageError e). split; [|split].
    + unfold run, main, parse_args. by rewrite Hp.
    + right. by exists e.
    + done.
Qed.

(** C8.  The hub is called at most once in a run, whatever happens. *)
Theorem C8_at_most_one_download hub environ argv fs :
  (downloads (trace (run hub environ argv fs).2) ≤ 1)%nat.
Proof.
  run_cases hub environ argv fs; unfold downloads; simpl; lia.
Qed.



(** ** The claims on the sample worlds *)

Lemma C1_witness :
  Argparse.parse_args example_argv = Argparse.Continue example_args
  ∧ main hub_succeeds example_environ example_argv {| files := fs_bare; trace := [] |}
    = download_model hub_succeeds (Str "org/example-model") "/data/example"
        {| files := fs_bare; trace := [] |}.
Proof.
  split; [reflexivity|].
  exact (proj1 (C1_destination_is_join hub_succeeds example_environ example_argv
                  example_args "/data" eq_refl eq_refl)
               {| files := fs_bare; trace := [] |}).
Defined.






Lemma C6_witness :
  SnapshotDownload (Str "org/example-model") "/data/example" false true fs_ready (Ret tt)
    ∈ trace (run hub_succeeds example_environ example_argv fs_ready).2
  ∧ ∃ args o,
      Argparse.parse_args example_argv = Argparse.Continue args
      ∧ Argparse.output args = Str o
      ∧ Str "org/example-model" = Argparse.model args
      ∧ "/data/example"
        = posixpath_join (environ_get example_environ "MODELS_DIR" "/models") o
      ∧ false = false
      ∧ true = true.
Proof.
  assert (SnapshotDownload (Str "org/example-model") "/data/example" false true fs_ready
            (Ret tt)
          ∈ trace (run hub_succeeds example_environ example_argv fs_ready).2) as Hev.
  { vm_compute. repeat constructor. }
  split; [exact Hev|].
  exact (C6_download_arguments _ _ _ _ _ _ _ _ _ _ Hev).
Defined.

(** C7 as it is stated fails on [--help]: neither flag is given, and the
    process prints the help and exits with status 0. *)
Lemma C7_counterexample :
  Argparse.gives Argparse.Model ["--help"] = false
  ∧ Argparse.gives Argparse.Output ["--help"] = false
  ∧ run hub_succeeds example_environ ["--help"] fs_bare
    = (0, {| files := fs_bare; trace := [PrintHelp] |}).
Proof. repeat split; reflexivity. Qed.

Lemma C7_witness :
  Argparse.gives Argparse.Model ["--output"; "example"] = false
  ∧ Argparse.gives Argparse.Help ["--output"; "example"] = false
  ∧ ∃ status ev,
      run hub_succeeds example_environ ["--output"; "example"] fs_bare
      = (status, {| files := fs_bare; trace := [ev] |})
      ∧ (ev = PrintHelp ∧ status = 0 ∨ ∃ e, ev = UsageError e ∧ status = 2)
      ∧ (Argparse.gives Argparse.Help ["--output"; "example"] = false → status = 2).
Proof.
  split; [reflexivity|]. split; [reflexivity|].
  exact (C7_missing_flag_exits_in_parser hub_succeeds example_environ
           ["--output"; "example"] fs_bare (or_introl eq_refl)).
Defined.



(** ** Further properties of the script *)

(** *** Strings and paths *)
Module PathFacts.
Import Fs.

Lemma str_app_cons c s t : String c s +:+ t = String c (s +:+ t).
Proof. reflexivity. Qed.

Lemma str_app_nil_r s : s +:+ EmptyString = s.
Proof. induction s as [|c s IH]; [done|]. by rewrite str_app_cons, IH. Qed.

Lemma str_app_assoc s t u : (s +:+ t) +:+ u = s +:+ t +:+ u.
Proof. induction s as [|c s IH]; [done|]. by rewrite !str_app_cons, IH. Qed.

Lemma str_length_app s t : String.length (s +:+ t) = (String.length s + String.length t)%nat.
Proof. induction s as [|c s IH]; [done|]. rewrite str_app_cons. simpl. by rewrite IH. Qed.

Lemma endswith_snoc c s : PyStr.endswith c (s +:+ String c EmptyString) = true.
Proof.
  induction s as [|a s IH].
  - simpl. by apply bool_decide_eq_true.
  - rewrite str_app_cons. simpl. rewrite IH.
    destruct (s +:+ String c EmptyString) eqn:Hs; [|done].
    by destruct s.
Qed.

Lemma startswith_snoc c s t :
  s ≠ EmptyString →
  PyStr.startswith (String c EmptyString) (s +:+ t)
  = PyStr.startswith (String c EmptyString) s.
Proof. destruct s as [|a s]; [done|]. intros _. rewrite str_app_cons. simpl. by case_decide. Qed.

(** Leading separators are stripped up to the first other character,
    which a string that does not end with the separator has. *)
Lemma lstrip_snoc c s t :
  s ≠ EmptyString → PyStr.endswith c s = false →
  PyStr.lstrip c (s +:+ t) = PyStr.lstrip c s +:+ t.
Proof.
  induction s as [|a s IH]; [done|]. intros _ Hend. rewrite str_app_cons. simpl.
  destruct (decide (a = c)) as [->|Hne]; [|done].
  apply IH.
  - intros ->. simpl in Hend. by rewrite bool_decide_eq_false in Hend.
  - simpl in Hend. by destruct s.
Qed.

Lemma split_nonempty c s : PyStr.split c s ≠ [].
Proof.
  destruct s as [|a s]; simpl; [done|].
  destruct (decide (a = c)); [done|]. by destruct (PyStr.split c s).
Qed.

Lemma split_snoc c s :
  PyStr.split c (s +:+ String c EmptyString) = PyStr.split c s ++ [EmptyString].
Proof.
  induction s as [|a s IH].
  - simpl. by rewrite decide_True.
  - rewrite str_app_cons. simpl. rewrite IH.
    destruct (decide (a = c)); [done|].
    pose proof (split_nonempty c s). by destruct (PyStr.split c s).
Qed.

(** A separator at the end of a path does not change the path. *)
Lemma parse_path_snoc_slash s :
  s ≠ EmptyString → PyStr.endswith "/" s = false →
  parse_path (s +:+ "/") = parse_path s.
Proof.
  intros Hne Hend. unfold parse_path.
  rewrite (startswith_snoc "/" s "/" Hne), (lstrip_snoc "/" s "/" Hne Hend).
  rewrite !str_length_app, split_snoc, filter_app.
  replace (String.length s + String.length "/" -
           (String.length (PyStr.lstrip "/" s) + String.length "/"))%nat
    with (String.length s - String.length (PyStr.lstrip "/" s))%nat by lia.
  f_equal. rewrite filter_cons_False by (intros [? _]; done). by rewrite filter_nil, List.app_nil_r.
Qed.

End PathFacts.

(** *** The directory creation only adds directories *)
Module MkdirFacts.
Import Fs.

Lemma fs_extends_refl fs : fs_extends fs fs.
Proof. split; [done|]. intros k. destruct (nodes fs !! k); auto. Qed.

Lemma fs_extends_trans fs1 fs2 fs3 :
  fs_extends fs1 fs2 → fs_extends fs2 fs3 → fs_extends fs1 fs3.
Proof.
  intros [Hc12 H12] [Hc23 H23]. split; [congruence|]. intros k.
  specialize (H12 k). specialize (H23 k).
  destruct (nodes fs1 !! k) as [n|].
  - by rewrite H12 in H23.
  - destruct H12 as [H12|H12]; rewrite H12 in H23; auto.
Qed.

Lemma os_mkdir_extends fs p fs' : os_mkdir fs p = inr fs' → fs_extends fs fs'.
Proof.
  unfold os_mkdir.
  destruct (reverse (parts p)) as [|name rev_prefix].
  { destruct (nodes fs !! origin fs (root p)); done. }
  destruct (walk _ _ _) as [e|place]; [done|].
  destruct (nodes fs !! place) as [[w|]|]; try done.
  destruct (decide (name = "..")); [done|].
  destruct (nodes fs !! (place ++ [name])) eqn:Hfree; [done|].
  destruct w; [|done]. intros [= <-]. split; [done|]. simpl. intros k.
  destruct (decide (k = place ++ [name])) as [->|Hk].
  - rewrite Hfree, lookup_insert_eq. by right.
  - rewrite lookup_insert_ne by done. destruct (nodes fs !! k); auto.
Qed.

Lemma mkdir_single_extends exist_ok fs p r fs' :
  mkdir_single exist_ok fs p = (r, fs') → fs_extends fs fs'.
Proof.
  unfold mkdir_single. destruct (os_mkdir fs p) as [e|fs1] eqn:Hos.
  - destruct e; try destruct (negb exist_ok || negb (is_dir fs p));
      intros [= <- <-]; apply fs_extends_refl.
  - intros [= <- <-]. by eapply os_mkdir_extends.
Qed.

Lemma mkdir_parents_extends exist_ok fs root rev_parts r fs' :
  mkdir_parents exist_ok fs root rev_parts = (r, fs') → fs_extends fs fs'.
Proof.
  revert exist_ok r fs'.
  induction rev_parts as [|name rev_parent IH]; intros exist_ok r fs'; simpl.
  - destruct (os_mkdir fs _) as [e|fs1] eqn:Hos.
    + destruct e; try destruct (negb exist_ok || negb (is_dir fs _));
        intros [= <- <-]; apply fs_extends_refl.
    + intros [= <- <-]. by eapply os_mkdir_extends.
  - destruct (os_mkdir fs _) as [e|fs1] eqn:Hos.
    + destruct e; try (destruct (negb exist_ok || negb (is_dir fs _));
                       intros [= <- <-]; apply fs_extends_refl).
      destruct (mkdir_parents true fs root rev_parent) as [[e1|] fs1] eqn:Hparent.
      * intros [= <- <-]. by eapply IH.
      * intros Hself. eapply fs_extends_trans; [by eapply IH|].
        by eapply mkdir_single_extends.
    + intros [= <- <-]. by eapply os_mkdir_extends.
Qed.

Lemma mkdir_extends parents exist_ok fs p r fs' :
  mkdir parents exist_ok fs p = (r, fs') → fs_extends fs fs'.
Proof.
  unfold mkdir. destruct parents.
  - apply mkdir_parents_extends.
  - apply mkdir_single_extends.
Qed.



End MkdirFacts.

(** *** The script and the file system *)

(** X1.  Apart from what the hub does, a run only adds directories: the
    file system that the hub finds, and the file system left by a run that
    does not call the hub, is the initial one with directories added;
    nothing that was there is removed or changed. *)
Theorem X1_run_only_adds_directories hub environ argv fs :
  (∀ repo_id local_dir symlinks resume found outcome,
     SnapshotDownload repo_id local_dir symlinks resume found outcome
       ∈ trace (run hub environ argv fs).2 →
     fs_extends fs found)
  ∧ (downloads (trace (run hub environ argv fs).2) = 0%nat →
     fs_extends fs (files (run hub environ argv fs).2)).
Proof.
  split.
  - intros repo_id local_dir symlinks resume found outcome Hev.
    run_cases hub environ argv fs; pick_event Hev;
      injection Hev as -> -> -> -> -> ->; by eapply MkdirFacts.mkdir_extends.
  - run_cases hub environ argv fs; unfold downloads; simpl; try done;
      intros _; try apply MkdirFacts.fs_extends_refl.
    by eapply MkdirFacts.mkdir_extends.
Qed.

(** X2.  Creating the destination is idempotent: once
    [mkdir(parents=True, exist_ok=True)] has returned, doing it again
    returns again and changes nothing. *)
Theorem X2_mkdir_twice fs p fs' :
  Fs.mkdir true true fs p = (None, fs') →
  Fs.mkdir true true fs' p = (None, fs').
Proof.
  intros Hmk. apply FsFacts.mkdir_of_dir. by eapply FsFacts.mkdir_is_dir.
Qed.

(** X3.  Whenever the hub is called, the directory it is given exists: in
    the file system it finds, [local_dir] is a directory. *)
Theorem X3_hub_finds_the_directory hub environ argv fs
    repo_id local_dir symlinks resume found outcome :
  SnapshotDownload repo_id local_dir symlinks resume found outcome
    ∈ trace (run hub environ argv fs).2 →
  Fs.is_dir found (Fs.parse_path local_dir) = true.
Proof.
  intros Hev. run_cases hub environ argv fs; pick_event Hev;
    injection Hev as -> -> -> -> -> ->; by eapply FsFacts.mkdir_is_dir.
Qed.




(** X7.  A run that creates a directory or calls the hub was given both
    [--model] and [--output]. *)
Theorem X7_effects_need_both_flags hub environ argv fs ev :
  ev ∈ trace (run hub environ argv fs).2 →
  is_mkdir ev = true ∨ is_download ev = true →
  Argparse.gives Argparse.Model argv = true
  ∧ Argparse.gives Argparse.Output argv = true.
Proof.
  intros Hev Hkind. run_cases hub environ argv fs; pick_event Hev; subst ev;
    try (destruct Hkind; discriminate);
    by eapply ArgparseFacts.parse_args_returns.
Qed.

(** X16.  The script does nothing to the file system after the call to the
    hub: the run ends with the file system as the hub left it, also when
    the download failed. *)
Theorem X16_nothing_after_the_download hub environ argv fs
    repo_id local_dir symlinks resume found outcome :
  SnapshotDownload repo_id local_dir symlinks resume found outcome
    ∈ trace (run hub environ argv fs).2 →
  files (run hub environ argv fs).2
  = (hub repo_id local_dir symlinks resume found).2.
Proof.
  intros Hev. run_cases hub environ argv fs; pick_event Hev;
    injection Hev as -> -> -> -> -> ->; same_result;
    match goal with H : hub _ _ _ _ _ = _ |- _ => by rewrite H end.
Qed.

(** *** The environment and the destination *)

Lemma posixpath_join_trailing_slash d o :
  d ≠ EmptyString → PyStr.endswith "/" d = false →
  posixpath_join (d +:+ "/") o = posixpath_join d o.
Proof.
  intros Hne Hend. unfold posixpath_join.
  destruct (PyStr.startswith "/" o); [done|].
  rewrite (PathFacts.endswith_snoc "/" d), Hend, orb_true_r.
  rewrite bool_decide_eq_false_2 by done. simpl.
  by rewrite PathFacts.str_app_assoc.
Qed.

Lemma run_same_base hub environ1 environ2 argv fs :
  (∀ o, destination environ1 o = destination environ2 o) →
  run hub environ1 argv fs = run hub environ2 argv fs.
Proof.
  intros Hdest. unfold run.
  destruct (Argparse.parse_args argv) as [args| |e] eqn:Hp.
  - destruct (Argparse.output args) as [o|l] eqn:Ho.
    + by rewrite !(main_parsed_str _ _ _ _ _ _ Hp Ho), Hdest.
    + by rewrite !(main_parsed _ _ _ _ _ Hp), Ho.
  - unfold main, parse_args. by rewrite Hp.
  - unfold main, parse_args. by rewrite Hp.
Qed.


(** X9.  One slash at the end of [MODELS_DIR] makes no difference: the run
    is the same with [d/] as with [d], for a [d] that is not empty and does
    not end with a slash itself. *)
Theorem X9_trailing_slash_on_MODELS_DIR hub environ d argv fs :
  d ≠ EmptyString →
  PyStr.endswith "/" d = false →
  run hub (<["MODELS_DIR" := d +:+ "/"]> environ) argv fs
  = run hub (<["MODELS_DIR" := d]> environ) argv fs.
Proof.
  intros Hne Hend. apply run_same_base. intros o.
  unfold destination, environ_get. rewrite !lookup_insert_eq.
  by apply posixpath_join_trailing_slash.
Qed.

(** X10.  With an empty output name, the destination is the base
    directory itself: the joined string names the same path as the base
    directory. *)
Theorem X10_empty_output_is_the_base environ :
  Fs.parse_path (destination environ EmptyString)
  = Fs.parse_path (environ_get environ "MODELS_DIR" "/models").
Proof.
  unfold destination, posixpath_join. simpl.
  destruct (bool_decide (environ_get environ "MODELS_DIR" "/models" = EmptyString))
    eqn:Hempty; simpl.
  { by rewrite PathFacts.str_app_nil_r. }
  destruct (PyStr.endswith "/" (environ_get environ "MODELS_DIR" "/models")) eqn:Hend.
  { by rewrite PathFacts.str_app_nil_r. }
  rewrite PathFacts.str_app_nil_r. apply PathFacts.parse_path_snoc_slash; [|done].
  by apply bool_decide_eq_false in Hempty.
Qed.

(** *** The command line *)

Lemma parse_optional_plain s :
  PyStr.startswith "-" s = false →
  Argparse.parse_optional s = inr None ∧ s ≠ "--".
Proof.
  destruct s as [|c s]; [done|]. simpl.
  unfold Argparse.in_prefix_chars.
  destruct (decide ("-"%char = c)) as [<-|Hc]; [done|]. intros _.
  rewrite bool_decide_eq_false_2 by done. split; [done|congruence].
Qed.

(** X11.  A model and an output name that do not start with a dash are
    taken as they are, in either order of the two flags. *)
Theorem X11_plain_invocation m o :
  PyStr.startswith "-" m = false →
  PyStr.startswith "-" o = false →
  Argparse.parse_args ["--model"; m; "--output"; o]
  = Argparse.Continue {| Argparse.model := Str m; Argparse.output := Str o |}
  ∧ Argparse.parse_args ["--output"; o; "--model"; m]
    = Argparse.Continue {| Argparse.model := Str m; Argparse.output := Str o |}.
Proof.
  intros [Hm Hm']%parse_optional_plain [Ho Ho']%parse_optional_plain. split.
  - by apply ArgparseFacts.parse_args_plain.
  - unfold Argparse.parse_args.
    assert (Argparse.classify ["--output"; o; "--model"; m]
            = inr [("--output", Argparse.O (Some Argparse.Output, "--output", None));
                   (o, Argparse.A);
                   ("--model", Argparse.O (Some Argparse.Model, "--model", None));
                   (m, Argparse.A)]) as ->.
    { cbn [Argparse.classify]. rewrite (decide_False (P := m = "--")) by done.
      rewrite (decide_False (P := o = "--")) by done. by rewrite Hm, Ho. }
    cbn. unfold Argparse.get_values; cbn.
    rewrite (decide_False (P := m = "--")) by done.
    by rewrite (decide_False (P := o = "--")) by done.
Qed.

Lemma parse_optional_model_eq m :
  Argparse.parse_optional ("--model=" +:+ m)
  = inr (Some (Some Argparse.Model, "--model", Some m)).
Proof. reflexivity. Qed.

Lemma parse_optional_output_eq o :
  Argparse.parse_optional ("--output=" +:+ o)
  = inr (Some (Some Argparse.Output, "--output", Some o)).
Proof. reflexivity. Qed.

Lemma explicit_argument_store a option_string e action_tuples :
  Argparse.nargs a = 1%nat →
  Argparse.explicit_argument a option_string e action_tuples
  = inr (action_tuples ++ [(a, [e])], None).
Proof.
  intros Hn. destruct a; try done;
    destruct e, option_string as [|? [|? ?]]; reflexivity.
Qed.

(** X12.  Written as [--model=m --output=o], any model and output name is
    taken as it is, also one that starts with a dash; the only exception
    is the name [--]. *)
Theorem X12_values_after_equals_sign m o :
  m ≠ "--" → o ≠ "--" →
  Argparse.parse_args ["--model=" +:+ m; "--output=" +:+ o]
  = Argparse.Continue {| Argparse.model := Str m; Argparse.output := Str o |}.
Proof.
  intros Hm Ho. unfold Argparse.parse_args.
  assert (Argparse.classify ["--model=" +:+ m; "--output=" +:+ o]
          = inr [("--model=" +:+ m, Argparse.O (Some Argparse.Model, "--model", Some m));
                 ("--output=" +:+ o, Argparse.O (Some Argparse.Output, "--output", Some o))])
    as ->.
  { cbn [Argparse.classify].
    rewrite parse_optional_model_eq, parse_optional_output_eq.
    rewrite (decide_False (P := "--model=" +:+ m = "--")) by done.
    by rewrite (decide_False (P := "--output=" +:+ o = "--")) by done. }
  cbn [Argparse.consume]. rewrite !explicit_argument_store by done.
  cbn. unfold Argparse.get_values; cbn.
  rewrite (decide_False (P := m = "--")) by done.
  by rewrite (decide_False (P := o = "--")) by done.
Qed.

Lemma classify_option_like m rest :
  m = "--" ∨ Argparse.parse_optional m ≠ inr None →
  (∃ e, Argparse.classify (m :: rest) = inl e)
  ∨ ∃ pat items,
      Argparse.classify (m :: rest) = inr ((m, pat) :: items) ∧ pat ≠ Argparse.A.
Proof.
  intros Hm. cbn [Argparse.classify].
  destruct (decide (m = "--")) as [->|Hne].
  { right. by eexists Argparse.Dash, _. }
  destruct Hm as [?|Hm]; [done|].
  destruct (Argparse.parse_optional m) as [e|[t|]]; [left; by exists e| |done].
  destruct (Argparse.classify rest) as [e|items]; [left; by exists e|].
  right. by eexists (Argparse.O t), _.
Qed.

Lemma parse_args_option_like a m rest :
  a ≠ Argparse.Help →
  m = "--" ∨ Argparse.parse_optional m ≠ inr None →
  ∃ e, Argparse.parse_args (Argparse.action_name a :: m :: rest) = Argparse.Error e.
Proof.
  intros Ha Hm. unfold Argparse.parse_args.
  assert (∃ t, Argparse.nargs a = 1%nat ∧
            ∀ l, Argparse.classify (Argparse.action_name a :: l)
                 = match Argparse.classify l with
                   | inl e => inl e
                   | inr items =>
                       inr ((Argparse.action_name a,
                             Argparse.O (Some a, t, None)) :: items)
                   end) as (t & Hn & ->).
  { destruct a; [done| |]; eexists; (split; [done|]); intros l; reflexivity. }
  destruct (classify_option_like m rest Hm) as [[e ->]|(pat & items & -> & Hpat)].
  { by exists e. }
  exists (Argparse.ExpectedOneArgument a). cbn [Argparse.consume].
  rewrite Hn. by destruct pat.
Qed.

(** X13.  After [--model] or [--output], a word that reads as an option
    (or the word [--]) is not taken as the value: the parser refuses the
    command line, and the process ends with status 2 before anything else
    is done. *)
Theorem X13_value_that_reads_as_an_option hub environ a m rest fs :
  a ≠ Argparse.Help →
  m = "--" ∨ Argparse.parse_optional m ≠ inr None →
  ∃ e,
    run hub environ (Argparse.action_name a :: m :: rest) fs
    = (2, {| files := fs; trace := [UsageError e] |}).
Proof.
  intros Ha Hm. destruct (parse_args_option_like a m rest Ha Hm) as [e Hp].
  exists e. unfold run, main, parse_args. by rewrite Hp.
Qed.

(** *** What the process reports *)



(** *** The further properties on the sample worlds *)

Lemma X1_witness :
  SnapshotDownload (Str "org/example-model") "/data/example" false true fs_ready (Ret tt)
    ∈ trace (run hub_succeeds example_environ example_argv fs_bare).2
  ∧ fs_extends fs_bare fs_ready.
Proof.
  assert (SnapshotDownload (Str "org/example-model") "/data/example" false true fs_ready
            (Ret tt)
          ∈ trace (run hub_succeeds example_environ example_argv fs_bare).2) as Hev.
  { vm_compute. repeat constructor. }
  split; [exact Hev|].
  exact (proj1 (X1_run_only_adds_directories hub_succeeds example_environ example_argv
                  fs_bare) _ _ _ _ _ _ Hev).
Defined.

Lemma X2_witness :
  Fs.mkdir true true fs_bare (Fs.parse_path "/data/example") = (None, fs_ready)
  ∧ Fs.mkdir true true fs_ready (Fs.parse_path "/data/example") = (None, fs_ready).
Proof.
  assert (Fs.mkdir true true fs_bare (Fs.parse_path "/data/example") = (None, fs_ready))
    as Hmk by (vm_compute; reflexivity).
  split; [exact Hmk|].
  exact (X2_mkdir_twice fs_bare (Fs.parse_path "/data/example") fs_ready Hmk).
Defined.

Lemma X3_witness :
  SnapshotDownload (Str "org/example-model") "/data/example" false true fs_ready (Ret tt)
    ∈ trace (run hub_succeeds example_environ example_argv fs_bare).2
  ∧ Fs.is_dir fs_ready (Fs.parse_path "/data/example") = true.
Proof.
  assert (SnapshotDownload (Str "org/example-model") "/data/example" false true fs_ready
            (Ret tt)
          ∈ trace (run hub_succeeds example_environ example_argv fs_bare).2) as Hev.
  { vm_compute. repeat constructor. }
  split; [exact Hev|].
  exact (X3_hub_finds_the_directory _ _ _ _ _ _ _ _ _ _ Hev).
Defined.



Lemma X7_witness :
  Mkdir "/data/example" None
    ∈ trace (run hub_succeeds example_environ example_argv fs_ready).2
  ∧ Argparse.gives Argparse.Model example_argv = true
  ∧ Argparse.gives Argparse.Output example_argv = true.
Proof.
  assert (Mkdir "/data/example" None
          ∈ trace (run hub_succeeds example_environ example_argv fs_ready).2) as Hev.
  { vm_compute. repeat constructor. }
  split; [exact Hev|].
  exact (X7_effects_need_both_flags _ _ _ _ _ Hev (or_introl eq_refl)).
Defined.


Lemma X9_witness :
  PyStr.endswith "/" "/data" = false
  ∧ run hub_succeeds (<["MODELS_DIR" := "/data/"]> ∅) example_argv fs_bare
    = run hub_succeeds (<["MODELS_DIR" := "/data"]> ∅) example_argv fs_bare.
Proof.
  split; [reflexivity|].
  exact (X9_trailing_slash_on_MODELS_DIR hub_succeeds ∅ "/data" example_argv fs_bare
           (λ H : "/data" = EmptyString,
              eq_ind "/data" (λ s, match s with EmptyString => False | _ => True end)
                I _ H)
           eq_refl).
Defined.

Lemma X11_witness :
  PyStr.startswith "-" "org/example-model" = false
  ∧ PyStr.startswith "-" "example" = false
  ∧ Argparse.parse_args ["--model"; "org/example-model"; "--output"; "example"]
    = Argparse.Continue example_args
  ∧ Argparse.parse_args ["--output"; "example"; "--model"; "org/example-model"]
    = Argparse.Continue example_args.
Proof.
  split; [reflexivity|]. split; [reflexivity|].
  exact (X11_plain_invocation "org/example-model" "example" eq_refl eq_refl).
Defined.

Lemma X12_witness :
  "-local" ≠ "--"
  ∧ "-1/out" ≠ "--"
  ∧ Argparse.parse_args ["--model=-local"; "--output=-1/out"]
    = Argparse.Continue {| Argparse.model := Str "-local"; Argparse.output := Str "-1/out" |}.
Proof.
  assert ("-local" ≠ "--") as Hm by discriminate.
  assert ("-1/out" ≠ "--") as Ho by discriminate.
  split; [exact Hm|]. split; [exact Ho|].
  exact (X12_values_after_equals_sign "-local" "-1/out" Hm Ho).
Defined.

Lemma X13_witness :
  Argparse.parse_optional "-x" ≠ inr None
  ∧ ∃ e,
      run hub_succeeds example_environ ["--model"; "-x"; "--output"; "example"] fs_bare
      = (2, {| files := fs_bare; trace := [UsageError e] |}).
Proof.
  assert (Argparse.parse_optional "-x" ≠ inr None) as Hm by (vm_compute; discriminate).
  assert (Argparse.Model ≠ Argparse.Help) as Ha by discriminate.
  split; [exact Hm|].
  exact (X13_value_that_reads_as_an_option hub_succeeds example_environ Argparse.Model
           "-x" ["--output"; "example"] fs_bare Ha (or_intror Hm)).
Defined.


Lemma X16_witness :
  SnapshotDownload (Str "org/example-model") "/data/example" false true fs_ready
      (Raise (Exc repository_not_found))
    ∈ trace (run (hub_fails repository_not_found) example_environ example_argv fs_bare).2
  ∧ files (run (hub_fails repository_not_found) example_environ example_argv fs_bare).2
    = fs_ready.
Proof.
  assert (SnapshotDownload (Str "org/example-model") "/data/example" false true fs_ready
            (Raise (Exc repository_not_found))
          ∈ trace (run (hub_fails repository_not_found) example_environ
                     example_argv fs_bare).2) as Hev.
  { vm_compute. repeat constructor. }
  split; [exact Hev|].
  exact (X16_nothing_after_the_download _ _ _ _ _ _ _ _ _ _ Hev).
Defined.
